(** * Offline caching worker of the wedding website (src/js/modern/sw.js)

    A shallow embedding of the service worker: the Cache Storage it owns,
    its three request strategies, the install/activate lifecycle handlers
    and the deferred RSVP submission, followed by the properties the
    specification states about them.

    Asynchronous code is embedded in a small promise monad: a computation
    reads the network, threads the worker's world (cache storage, RSVP slot,
    trace of effects) and settles as resolved or rejected.  Each handler is
    run to quiescence, one handler at a time; interleavings of several
    handlers are outside the model.  A promise the source starts without
    awaiting it ([cache.put] in the strategies, the refresh of
    stale-while-revalidate) has its effects, and how it settles is dropped
    or handed on as the source does.

    The browser's Cache Storage is modelled as far as the worker uses it: a
    partition maps the URL of a GET request to a response, partitions are
    kept in creation order, [addAll] writes all of its entries or none.
    [Vary] headers, URL fragments and partial responses are left out. *)

From Stdlib Require Import ZArith.
From stdpp Require Import gmap strings list fin_maps.

(** ** Data model *)

(** A request as the worker observes it: [request.method], [request.url],
    [request.destination] and the body handed to [fetch]. *)
Record Request := mkRequest {
  method : string;
  url : string;
  destination : string;
  req_body : option string
}.

(** A response: [status] and the text of its body.  [clone()] yields an
    equal value, so storing a clone is storing the response. *)
Record Response := mkResponse {
  status : Z;
  body : string
}.

(** One cache partition: request URL to stored response. *)
Abbreviation Cache := (gmap string Response).

(** [caches]: the partitions by name, in creation order (the order in which
    [caches.keys()] lists them and [caches.match] searches them). *)
Abbreviation CacheStorage := (list (string * Cache)).

Inductive Error :=
| NetworkFailure          (* fetch rejected *)
| BadStatus               (* addAll saw a response that is not ok *)
| MethodNotGET.           (* cache.put with a request that is not GET *)

(** How a promise settles. *)
Inductive Result (A : Type) :=
| Resolved (a : A)
| Rejected (e : Error).
Arguments Resolved {A} a.
Arguments Rejected {A} e.

(** The network as seen by one handler run: [None] is a failed fetch. *)
Definition Network := Request -> option Response.

(** Effects a handler performs, in the order it performs them. *)
Inductive Event :=
| EvFetch (r : Request)
| EvCachesOpen (name : string)
| EvCachesKeys
| EvCachesDelete (name : string)
| EvCachesMatch (u : string)
| EvCacheMatch (name u : string)
| EvCachePut (name u : string)
| EvSkipWaiting
| EvClientsClaim
| EvStoreRead
| EvStoreClear
| EvConsoleLog (msg : string).

(** ** Constants of sw.js *)

Definition CACHE_NAME : string := "wedding-website-v1".
Definition STATIC_CACHE : string := "static-v1".
Definition DYNAMIC_CACHE : string := "dynamic-v1".

Definition STATIC_FILES : list string :=
  [ "/";
    "/index.html";
    "/css/styles.min.css";
    "/js/modern-scripts.js";
    "/img/logo.png";
    "/img/hero-placeholder.jpg";
    "/manifest.json" ].

(** [String.prototype.includes]. *)
Fixpoint includes (needle hay : string) : bool :=
  String.prefix needle hay
  || match hay with
     | EmptyString => false
     | String _ rest => includes needle rest
     end.

(** [response.ok]: status in the range 200-299. *)
Definition ok (resp : Response) : bool :=
  ((200 <=? status resp) && (status resp <=? 299))%Z.

(** Request categories of the fetch listener's if-chain. *)
Inductive Category := API | IMAGE | OTHER.

Definition classify (request : Request) : Category :=
  if includes "/api/" (url request) then API
  else if String.eqb (destination request) "image" then IMAGE
  else OTHER.

(** What the fetch listener does with an event: it returns without calling
    [respondWith] (the browser performs the request itself), or it answers
    with the settled promise of a strategy. *)
Inductive Interception :=
| PassThrough
| RespondWith (o : Result (option Response)).

(** State of the worker registration after a lifecycle event. *)
Inductive Lifecycle := installing | installed | activating | activated | redundant.

Section Worker.

(** Origin the worker is registered under; relative URLs resolve against it. *)
Context (origin : string).

(** The record kept for a pending RSVP and [JSON.stringify] on it. *)
Context {RSVPData : Type}.
Context (JSON_stringify : RSVPData -> string).

Definition resolve (path : string) : string := origin +:+ path.

(** [new Request(path)]: what [fetch], [caches.match] and [addAll] build from
    a string. *)
Definition Request_of (path : string) : Request :=
  {| method := "GET"; url := resolve path; destination := ""; req_body := None |}.

Record World := mkWorld {
  caches : CacheStorage;
  rsvp : option RSVPData;
  trace : list Event
}.

Definition set_caches (cs : CacheStorage) (w : World) : World :=
  {| caches := cs; rsvp := rsvp w; trace := trace w |}.

Definition set_rsvp (d : option RSVPData) (w : World) : World :=
  {| caches := caches w; rsvp := d; trace := trace w |}.

Definition emit (e : Event) (w : World) : World :=
  {| caches := caches w; rsvp := rsvp w; trace := trace w ++ [e] |}.

(** ** The promise monad *)

Definition Promise (A : Type) := Network -> World -> Result A * World.

Definition ret {A} (a : A) : Promise A := fun _ w => (Resolved a, w).

Definition throw {A} (e : Error) : Promise A := fun _ w => (Rejected e, w).

(** [await m] followed by [k]. *)
Definition bind {A B} (m : Promise A) (k : A -> Promise B) : Promise B :=
  fun net w =>
    match m net w with
    | (Resolved a, w') => k a net w'
    | (Rejected e, w') => (Rejected e, w')
    end.

(** [try { m } catch (error) { h error }]. *)
Definition try_catch {A} (m : Promise A) (h : Error -> Promise A) : Promise A :=
  fun net w =>
    match m net w with
    | (Resolved a, w') => (Resolved a, w')
    | (Rejected e, w') => h e net w'
    end.

(** A promise that is started and not awaited: its effects happen, how it
    settles is a value the caller may use later or drop. *)
Definition spawn {A} (m : Promise A) : Promise (Result A) :=
  fun net w => let '(o, w') := m net w in (Resolved o, w').

(** Returning an already started promise from an async function. *)
Definition settle {A} (o : Result A) : Promise A := fun _ w => (o, w).

Definition tell (e : Event) : Promise unit := fun _ w => (Resolved tt, emit e w).

Notation "'let!' x ':=' m 'in' k" := (bind m (fun x => k))
  (at level 10, x name, m at level 200, k at level 200).
Notation "'run!' m 'in' k" := (bind m (fun _ => k))
  (at level 10, m at level 200, k at level 200).

(** [Promise.all]: every promise has been started; the result rejects with
    the first rejection. *)
Fixpoint Promise_all {A} (ps : list (Promise A)) : Promise (list A) :=
  match ps with
  | [] => ret []
  | p :: rest =>
      let! o := spawn p in
      let! os := spawn (Promise_all rest) in
      match o, os with
      | Resolved a, Resolved l => ret (a :: l)
      | Rejected e, _ => throw e
      | _, Rejected e => throw e
      end
  end.

(** ** Platform operations *)

(** The partition of that name, if it exists. *)
Fixpoint partition (cs : CacheStorage) (name : string) : option Cache :=
  match cs with
  | [] => None
  | (n, c) :: rest => if String.eqb n name then Some c else partition rest name
  end.

(** Replace the contents of the partition of that name. *)
Fixpoint update_partition (cs : CacheStorage) (name : string) (c : Cache)
  : CacheStorage :=
  match cs with
  | [] => []
  | (n, c0) :: rest =>
      if String.eqb n name then (n, c) :: rest
      else (n, c0) :: update_partition rest name c
  end.

(** The entry a single cache holds for a request; only GET requests match. *)
Definition entry (c : Cache) (request : Request) : option Response :=
  if String.eqb (method request) "GET" then c !! url request else None.

(** The entry the partition of that name holds for a request. *)
Definition stored (cs : CacheStorage) (name : string) (request : Request)
  : option Response :=
  c ← partition cs name; entry c request.

(** First entry for the request over all partitions, in creation order. *)
Fixpoint match_all (cs : CacheStorage) (request : Request) : option Response :=
  match cs with
  | [] => None
  | (_, c) :: rest =>
      match entry c request with
      | Some resp => Some resp
      | None => match_all rest request
      end
  end.

(** [fetch(request)]. *)
Definition fetch (request : Request) : Promise Response :=
  fun net w =>
    match net request with
    | Some resp => (Resolved resp, emit (EvFetch request) w)
    | None => (Rejected NetworkFailure, emit (EvFetch request) w)
    end.

(** [caches.open(name)]: creates the partition when there is none; the
    handle is the partition's name. *)
Definition caches_open (name : string) : Promise string :=
  fun _ w =>
    let w := emit (EvCachesOpen name) w in
    match partition (caches w) name with
    | Some _ => (Resolved name, w)
    | None => (Resolved name, set_caches (caches w ++ [(name, ∅)]) w)
    end.

(** [caches.keys()]. *)
Definition caches_keys : Promise (list string) :=
  fun _ w => (Resolved (caches w).*1, emit EvCachesKeys w).

(** [caches.delete(name)]: resolves to whether a partition was deleted. *)
Definition caches_delete (name : string) : Promise bool :=
  fun _ w =>
    let w := emit (EvCachesDelete name) w in
    (Resolved (bool_decide (is_Some (partition (caches w) name))),
     set_caches (filter (λ p, p.1 ≠ name) (caches w)) w).

(** [caches.match(request)]: over all partitions. *)
Definition caches_match (request : Request) : Promise (option Response) :=
  fun _ w => (Resolved (match_all (caches w) request),
              emit (EvCachesMatch (url request)) w).

(** [cache.match(request)] on an opened partition. *)
Definition cache_match (cache : string) (request : Request)
  : Promise (option Response) :=
  fun _ w => (Resolved (stored (caches w) cache request),
              emit (EvCacheMatch cache (url request)) w).

(** [cache.put(request, response)]: replaces the entry for the request.  The
    handlers below put only into a partition they have just opened. *)
Definition cache_put (cache : string) (request : Request) (resp : Response)
  : Promise unit :=
  fun _ w =>
    if String.eqb (method request) "GET" then
      match partition (caches w) cache with
      | Some c =>
          (Resolved tt,
           emit (EvCachePut cache (url request))
             (set_caches (update_partition (caches w) cache
                            (<[url request := resp]> c)) w))
      | None => (Resolved tt, w)
      end
    else (Rejected MethodNotGET, w).

(** All responses of a batch, or the reason the batch is refused. *)
Fixpoint collect (net : Network) (requests : list Request)
  : Result (list (string * Response)) :=
  match requests with
  | [] => Resolved []
  | r :: rest =>
      match net r with
      | None => Rejected NetworkFailure
      | Some resp =>
          if ok resp then
            match collect net rest with
            | Resolved l => Resolved ((url r, resp) :: l)
            | Rejected e => Rejected e
            end
          else Rejected BadStatus
      end
  end.

(** [cache.addAll(urls)]: fetches every URL; the entries are written only
    when every fetch gave an ok response, otherwise the promise rejects and
    the partition is left as it was. *)
Definition cache_addAll (cache : string) (urls : list string) : Promise unit :=
  fun net w =>
    let requests := Request_of <$> urls in
    let w := foldl (fun w r => emit (EvFetch r) w) w requests in
    match collect net requests with
    | Rejected e => (Rejected e, w)
    | Resolved l =>
        match partition (caches w) cache with
        | Some c =>
            (Resolved tt,
             foldl (fun w '(u, _) => emit (EvCachePut cache u) w)
               (set_caches (update_partition (caches w) cache
                              (foldl (fun c '(u, resp) => <[u := resp]> c) c l)) w)
               l)
        | None => (Resolved tt, w)
        end
    end.

Definition skipWaiting : Promise unit := tell EvSkipWaiting.
Definition clients_claim : Promise unit := tell EvClientsClaim.
Definition console_log (msg : string) : Promise unit := tell (EvConsoleLog msg).

(** ** Strategies *)

(** Network first strategy - for API calls. *)
Definition networkFirst (request : Request) : Promise (option Response) :=
  try_catch
    (let! networkResponse := fetch request in
     let! cache := caches_open DYNAMIC_CACHE in
     run! spawn (cache_put cache request networkResponse) in
     ret (Some networkResponse))
    (fun error =>
       let! cachedResponse := caches_match request in
       match cachedResponse with
       | Some resp => ret (Some resp)
       | None => ret (Some {| status := 503; body := "Offline" |})
       end).

(** Cache first strategy - for images and static assets. *)
Definition cacheFirst (request : Request) : Promise (option Response) :=
  let! cachedResponse := caches_match request in
  match cachedResponse with
  | Some resp => ret (Some resp)
  | None =>
      try_catch
        (let! networkResponse := fetch request in
         let! cache := caches_open DYNAMIC_CACHE in
         run! spawn (cache_put cache request networkResponse) in
         ret (Some networkResponse))
        (fun error =>
           if String.eqb (destination request) "image"
           then caches_match (Request_of "/img/placeholder.jpg")
           else throw error)
  end.

(** Stale while revalidate - for HTML and CSS. *)
Definition staleWhileRevalidate (request : Request) : Promise (option Response) :=
  let! cache := caches_open DYNAMIC_CACHE in
  let! cachedResponse := cache_match cache request in
  let! fetchPromise :=
    spawn (let! networkResponse := fetch request in
           run! spawn (cache_put cache request networkResponse) in
           ret (Some networkResponse)) in
  match cachedResponse with
  | Some resp => ret (Some resp)
  | None => settle fetchPromise
  end.

(** ** Event listeners *)

(** The body of the install listener over a manifest. *)
Definition install_files (files : list string) : Promise unit :=
  let! cache := caches_open STATIC_CACHE in
  run! cache_addAll cache files in
  skipWaiting.

Definition install : Promise unit := install_files STATIC_FILES.

(** [event.waitUntil] of the install event: a rejection fails the
    installation and the worker is discarded. *)
Definition onInstall_files (files : list string) (net : Network) (w : World)
  : Lifecycle * World :=
  match install_files files net w with
  | (Resolved _, w') => (installed, w')
  | (Rejected _, w') => (redundant, w')
  end.

Definition onInstall : Network -> World -> Lifecycle * World :=
  onInstall_files STATIC_FILES.

(** The names the activate listener hands to [caches.delete]. *)
Definition orphans (cacheNames : list string) : list string :=
  filter (λ name, name ≠ STATIC_CACHE ∧ name ≠ DYNAMIC_CACHE) cacheNames.

Definition activate : Promise unit :=
  let! cacheNames := caches_keys in
  run! Promise_all (caches_delete <$> orphans cacheNames) in
  clients_claim.

Definition onActivate (net : Network) (w : World) : Lifecycle * World :=
  (activated, (activate net w).2).

(** The fetch listener. *)
Definition onFetch (request : Request) (net : Network) (w : World)
  : Interception * World :=
  if negb (String.eqb (method request) "GET") then (PassThrough, w)
  else
    let '(o, w') :=
      match classify request with
      | API => networkFirst request net w
      | IMAGE => cacheFirst request net w
      | OTHER => staleWhileRevalidate request net w
      end in
    (RespondWith o, w').

(** ** Deferred RSVP submission *)

(** Modelled from the spec: [getStoredRSVP] is called by sw.js and defined
    nowhere in the sources at hand.  Per the specification it reads the single
    Pending Submission from persistent storage, absent when there is none. *)
Definition getStoredRSVP : Promise (option RSVPData) :=
  fun _ w => (Resolved (rsvp w), emit EvStoreRead w).

(** Modelled from the spec: [clearStoredRSVP], likewise called and not
    defined; it deletes the Pending Submission. *)
Definition clearStoredRSVP : Promise unit :=
  fun _ w => (Resolved tt, emit EvStoreClear (set_rsvp None w)).

Definition syncRSVP : Promise unit :=
  let! rsvpData := getStoredRSVP in
  match rsvpData with
  | Some data =>
      try_catch
        (run! fetch {| method := "POST"; url := resolve "/api/rsvp";
                       destination := "";
                       req_body := Some (JSON_stringify data) |} in
         clearStoredRSVP)
        (fun error => console_log "RSVP sync failed:")
  | None => ret tt
  end.

(** The sync listener. *)
Definition onSync (tag : string) : Promise unit :=
  if String.eqb tag "rsvp-sync" then syncRSVP else ret tt.

(** ** Observations on traces *)

(** The requests that went to the network. *)
Definition network_calls (t : list Event) : list Request :=
  omap (λ e, match e with EvFetch r => Some r | _ => None end) t.

(** The partitions handed to [caches.delete]. *)
Definition deletions (t : list Event) : list string :=
  omap (λ e, match e with EvCachesDelete n => Some n | _ => None end) t.

(** Whether an effect reads or writes the cache storage. *)
Definition touches_cache (e : Event) : bool :=
  match e with
  | EvCachesOpen _ | EvCachesKeys | EvCachesDelete _ | EvCachesMatch _
  | EvCacheMatch _ _ | EvCachePut _ _ => true
  | _ => false
  end.

End Worker.

Arguments World : clear implicits.

(** ** Vocabulary of the specification *)

(** The partitions of the running version. *)
Definition current (name : string) : Prop :=
  name = STATIC_CACHE ∨ name = DYNAMIC_CACHE.

(** A storage as activation leaves it: distinct names, all of them current. *)
Definition purged (cs : CacheStorage) : Prop :=
  NoDup cs.*1 ∧ Forall current cs.*1.

#[global] Instance current_dec name : Decision (current name).
Proof. unfold current. apply _. Defined.

(** A computation that leaves a purged storage purged. *)
Definition keeps_purged {RSVPData A} (m : @Promise RSVPData A) : Prop :=
  ∀ net w, purged (caches w) → purged (caches (m net w).2).

(** The synthetic response of the network-first strategy. *)
Definition offline : Response := {| status := 503; body := "Offline" |}.

(** How a fetch settles on a given network. *)
Definition fetched (net : Network) (request : Request)
  : Result (option Response) :=
  match net request with
  | Some resp => Resolved (Some resp)
  | None => Rejected NetworkFailure
  end.

(** ** Sample inputs *)

Definition site : string := "https://example.com".

(** A network that answers every request, and one that is unreachable. *)
Definition net_up : Network := fun r => Some {| status := 200; body := url r |}.
Definition net_down : Network := fun _ => None.

(** A network on which exactly one URL cannot be fetched. *)
Definition net_without (u : string) : Network :=
  fun r => if String.eqb (url r) u then None else net_up r.

Definition get (u kind : string) : Request :=
  {| method := "GET"; url := u; destination := kind; req_body := None |}.

Definition post (u payload : string) : Request :=
  {| method := "POST"; url := u; destination := ""; req_body := Some payload |}.

(** A browser profile in which nothing has been cached yet. *)
Definition blank : World unit := {| caches := []; rsvp := None; trace := [] |}.

(** The world once the worker has installed and activated on a working
    network. *)
Definition ready : World unit :=
  (onActivate net_up (onInstall site net_up blank).2).2.

Definition with_caches (cs : CacheStorage) : World unit :=
  {| caches := cs; rsvp := None; trace := [] |}.

(** Requests of the page: two images, a document, an API call, a form post. *)
Definition logo : Request := get "https://example.com/img/logo.png" "image".
Definition photo : Request := get "https://example.com/img/photo.jpg" "image".
Definition home : Request := get "https://example.com/index.html" "document".
Definition guests : Request := get "https://example.com/api/guests" "".
Definition answer : Request := post "https://example.com/api/rsvp" "yes".

Definition kept : Response := {| status := 200; body := "cached" |}.
Definition fresh : Response := {| status := 200; body := "fresh" |}.


(** A storage in which the dynamic partition has entries for the document
    and for the API call. *)
Definition visited : World unit :=
  with_caches [(STATIC_CACHE, ∅);
               (DYNAMIC_CACHE, {[ url home := kept; url guests := kept ]})].

(** A storage with partitions of an earlier version left over. *)
Definition upgraded : World unit :=
  with_caches [("static-v0", {[ url logo := kept ]}); ("dynamic-v0", ∅);
               (STATIC_CACHE, {[ url logo := fresh ]})].

(** A deployment on an intranet host named [api]. *)
Definition intranet : string := "https://api".

Definition intranet_ready : World unit :=
  (onActivate net_up (onInstall intranet net_up blank).2).2.

Definition intranet_home : Request := get "https://api/index.html" "document".

(** ** Push notifications

    The push and notificationclick listeners of sw.js use neither the cache
    storage nor the network; they call the notification and window
    interfaces, recorded here as the list of calls a listener makes. *)

Module Notification.

Record Action := mkAction { action : string; title : string }.

(** The options object handed to [showNotification]. *)
Record Options := mkOptions {
  body : string;
  icon : string;
  badge : string;
  vibrate : list Z;
  actions : list Action
}.

Inductive Call :=
| ShowNotification (heading : string) (options : Options)
| Close
| OpenWindow (target : string).

(** The push listener; [data] is [event.data], absent for a push without
    payload, otherwise its [text()]. *)
Definition onPush (data : option string) : list Call :=
  let options :=
    {| body := match data with
               | Some text => text
               | None => "Wedding update available!"
               end;
       icon := "/img/logo.png";
       badge := "/img/badge.png";
       vibrate := [200; 100; 200]%Z;
       actions := [ {| action := "view"; title := "View Details" |};
                    {| action := "dismiss"; title := "Dismiss" |} ] |} in
  [ShowNotification "Wedding Update" options].

(** The notificationclick listener; [clicked] is [event.action], empty when
    the notification itself was clicked. *)
Definition onNotificationClick (clicked : string) : list Call :=
  Close :: (if String.eqb clicked "view" then [OpenWindow "/"] else []).

End Notification.

(** ** More vocabulary *)

(** A storage after [caches.open(name)]. *)
Definition opened (cs : CacheStorage) (name : string) : CacheStorage :=
  match partition cs name with
  | Some _ => cs
  | None => cs ++ [(name, ∅)]
  end.

(** A storage after the dynamic partition was opened and a response put
    into it under the request. *)
Definition refreshed (cs : CacheStorage) (request : Request) (resp : Response)
  : CacheStorage :=
  match partition (opened cs DYNAMIC_CACHE) DYNAMIC_CACHE with
  | Some c =>
      update_partition (opened cs DYNAMIC_CACHE) DYNAMIC_CACHE
        (<[url request := resp]> c)
  | None => opened cs DYNAMIC_CACHE
  end.

(** [needle] occurs in [hay]. *)
Definition occurs_in (needle hay : string) : Prop :=
  ∃ before after, hay = before +:+ needle +:+ after.

(** The request [syncRSVP] sends for a pending record. *)
Definition delivery (origin payload : string) : Request :=
  {| method := "POST"; url := resolve origin "/api/rsvp"; destination := "";
     req_body := Some payload |}.

(** The events sw.js registers a listener for and that act on the worker's
    world. *)
Inductive WorkerEvent :=
| InstallEvent
| ActivateEvent
| FetchEvent (request : Request)
| SyncEvent (tag : string).

(** The world after the listener for an event has run on a given network. *)
Definition dispatch (origin : string) {RSVPData}
    (JSON_stringify : RSVPData → string)
    (ev : WorkerEvent) (net : Network) (w : World RSVPData) : World RSVPData :=
  match ev with
  | InstallEvent => (onInstall origin net w).2
  | ActivateEvent => (onActivate net w).2
  | FetchEvent request => (onFetch origin request net w).2
  | SyncEvent tag => (onSync origin JSON_stringify tag net w).2
  end.

(** A sequence of events, each with the network it meets. *)
Definition run_events (origin : string) {RSVPData}
    (JSON_stringify : RSVPData → string)
    (evs : list (WorkerEvent * Network)) (w : World RSVPData)
  : World RSVPData :=
  foldl (λ w '(ev, net), dispatch origin JSON_stringify ev net w) w evs.


(** A world with an RSVP waiting to be sent, and the text it is sent as. *)
Definition to_json (data : unit) : string := "{}".

Definition pending : World unit :=
  {| caches := caches ready; rsvp := Some tt; trace := [] |}.

(** Some events after an activation, on a network that comes and goes. *)
Definition busy_day : list (WorkerEvent * Network) :=
  [ (FetchEvent photo, net_up); (FetchEvent home, net_down);
    (InstallEvent, net_down); (SyncEvent "rsvp-sync", net_up);
    (FetchEvent guests, net_up); (ActivateEvent, net_up) ].

(** The same day without the installation. *)
Definition quiet_day : list (WorkerEvent * Network) :=
  [ (FetchEvent photo, net_up); (FetchEvent home, net_down);
    (SyncEvent "rsvp-sync", net_up); (FetchEvent guests, net_up);
    (ActivateEvent, net_up); (FetchEvent logo, net_down) ].

(** The events a handler added to the trace. *)
Definition added {RSVPData} (before after : World RSVPData) : list Event :=
  drop (length (trace before)) (trace after).

(** ** Facts about the cache storage *)

Section StorageFacts.

Implicit Types (cs : CacheStorage) (c : Cache) (name : string).

Lemma partition_elem cs name c :
  partition cs name = Some c → (name, c) ∈ cs.
Proof.
  induction cs as [|[n c0] rest IH]; simpl; [done|].
  destruct (String.eqb_spec n name) as [->|Hne].
  - intros [= ->]. apply list_elem_of_here.
  - intros H. apply list_elem_of_further, IH, H.
Qed.

Lemma partition_app_fresh cs name c :
  partition cs name = None → partition (cs ++ [(name, c)]) name = Some c.
Proof.
  induction cs as [|[n c0] rest IH]; simpl.
  - by rewrite String.eqb_refl.
  - destruct (String.eqb n name); [done|apply IH].
Qed.

Lemma partition_app_other cs name n c :
  n ≠ name → partition (cs ++ [(n, c)]) name = partition cs name.
Proof.
  intros Hne. induction cs as [|[n0 c0] rest IH]; simpl.
  - by apply String.eqb_neq in Hne as ->.
  - by rewrite IH.
Qed.


Lemma partition_update_other cs name n c :
  n ≠ name →
  partition (update_partition cs name c) n = partition cs n.
Proof.
  intros Hne. induction cs as [|[n0 c0] rest IH]; simpl; [done|].
  destruct (String.eqb_spec n0 name) as [->|Hn0]; simpl.
  - destruct (String.eqb_spec name n); [congruence|done].
  - by rewrite IH.
Qed.






End StorageFacts.

(** ** Request interception *)

Section Interception.

Context (origin : string) {RSVPData : Type}.
Implicit Types (w : World RSVPData) (net : Network) (request : Request).

Lemma network_calls_snoc t e :
  network_calls (t ++ [e]) =
  network_calls t ++ match e with EvFetch r => [r] | _ => [] end.
Proof.
  unfold network_calls. rewrite omap_app. f_equal. by destruct e.
Qed.

(** C6. A request whose method is not GET is not intercepted: the listener
    returns without answering, so the browser sends the request itself, and
    the world is the one before the event: no partition was read or written
    and no effect was performed. *)
Theorem non_GET_passes_through net w request :
  method request ≠ "GET" →
  onFetch origin request net w = (PassThrough, w).
Proof.
  intros Hm. unfold onFetch.
  by apply String.eqb_neq in Hm as ->.
Qed.


(** Opening the dynamic partition does not change what it holds. *)
Lemma stored_after_open net w name request :
  stored (caches (caches_open name net w).2) name request
  = stored (caches w) name request.
Proof.
  unfold caches_open, stored. simpl.
  destruct (partition (caches w) name) eqn:Hp; simpl; [by rewrite Hp|].
  rewrite partition_app_fresh by done. simpl.
  unfold entry. destruct (String.eqb _ _); [apply lookup_empty|done].
Qed.

(** The answer of stale-while-revalidate: the dynamic entry when there is
    one, otherwise whatever the fetch gives. *)
Lemma staleWhileRevalidate_answer net w request :
  (staleWhileRevalidate request net w).1
  = match stored (caches w) DYNAMIC_CACHE request with
    | Some e => Resolved (Some e)
    | None => fetched net request
    end.
Proof.
  rewrite <- (stored_after_open net w DYNAMIC_CACHE request).
  unfold staleWhileRevalidate, bind, caches_open, cache_match, spawn, fetch,
    fetched, settle, ret.
  simpl.
  destruct (partition (caches w) DYNAMIC_CACHE) eqn:Hp; simpl.
  - destruct (stored (caches w) DYNAMIC_CACHE request) eqn:Hs;
      destruct (net request); simpl;
      repeat (match goal with
              | |- context [cache_put ?a ?b ?c ?d ?e] =>
                  destruct (cache_put a b c d e)
              end; simpl); done.
  - destruct (stored _ DYNAMIC_CACHE request) eqn:Hs;
      destruct (net request); simpl;
      repeat (match goal with
              | |- context [cache_put ?a ?b ?c ?d ?e] =>
                  destruct (cache_put a b c d e)
              end; simpl); done.
Qed.

(** C5. A GET request classified OTHER that has an entry in the dynamic
    partition is answered with that entry, and the answer is the same
    whatever the network does with the refresh started alongside. *)
Theorem staleWhileRevalidate_serves_cached net w request e :
  method request = "GET" →
  classify request = OTHER →
  stored (caches w) DYNAMIC_CACHE request = Some e →
  (onFetch origin request net w).1 = RespondWith (Resolved (Some e))
  ∧ ∀ net', (onFetch origin request net' w).1
            = (onFetch origin request net w).1.
Proof.
  intros Hget Hclass Hs.
  assert (∀ n, (onFetch origin request n w).1
               = RespondWith (Resolved (Some e))) as Hall.
  { intros n. unfold onFetch. rewrite Hget, Hclass. simpl.
    pose proof (staleWhileRevalidate_answer n w request) as Ha.
    destruct (staleWhileRevalidate request n w) as [o w']. simpl in *.
    by rewrite Ha, Hs. }
  split; [apply Hall|]. intros net'. by rewrite !Hall.
Qed.




(** What network-first answers when the fetch fails: the first entry over
    all partitions, or the synthetic response. *)
Lemma networkFirst_offline net w request :
  net request = None →
  networkFirst request net w
  = (Resolved (Some (default offline (match_all (caches w) request))),
     emit (EvCachesMatch (url request)) (emit (EvFetch request) w)).
Proof.
  intros Hnet. unfold networkFirst, try_catch, bind, fetch, caches_match.
  rewrite Hnet. simpl. by destruct (match_all (caches w) request).
Qed.


(** What cache-first answers when nothing is cached and the fetch fails. *)
Lemma cacheFirst_miss_offline net w request :
  match_all (caches w) request = None →
  net request = None →
  (cacheFirst origin request net w).1
  = if String.eqb (destination request) "image"
    then Resolved (match_all (caches w)
                     (Request_of origin "/img/placeholder.jpg"))
    else Rejected NetworkFailure.
Proof.
  intros Hm Hnet.
  unfold cacheFirst, try_catch, bind, fetch, caches_match, throw.
  simpl. rewrite Hm, Hnet.
  by destruct (String.eqb (destination request) "image").
Qed.

(** For a request that is not an image, the failure of the fetch is what
    cache-first gives its caller. *)
Lemma cacheFirst_failure_propagates net w request :
  destination request ≠ "image" →
  match_all (caches w) request = None →
  net request = None →
  (cacheFirst origin request net w).1 = Rejected NetworkFailure.
Proof.
  intros Hd Hm Hnet. rewrite cacheFirst_miss_offline by done.
  by apply String.eqb_neq in Hd as ->.
Qed.

End Interception.

(** ** Lifecycle and deferred submission *)

Section Lifecycle.

Context (origin : string) {RSVPData : Type}.
Context (JSON_stringify : RSVPData → string).
Implicit Types (w : World RSVPData) (net : Network).

Lemma filter_agree {A} (P Q : A → Prop)
    `{!∀ x, Decision (P x), !∀ x, Decision (Q x)} (l : list A) :
  (∀ x, x ∈ l → P x ↔ Q x) → filter P l = filter Q l.
Proof.
  induction l as [|a l IH]; intros Hl; [done|].
  rewrite !filter_cons.
  rewrite IH by (intros x Hx; apply Hl; by apply list_elem_of_further).
  apply decide_ext, Hl, list_elem_of_here.
Qed.

Lemma filter_keep_all {A} (P : A → Prop) `{!∀ x, Decision (P x)} (l : list A) :
  (∀ x, x ∈ l → P x) → filter P l = l.
Proof.
  induction l as [|a l IH]; intros Hl; [done|].
  rewrite filter_cons_True by apply Hl, list_elem_of_here.
  f_equal. apply IH. intros x Hx. by apply Hl, list_elem_of_further.
Qed.

(** Names that are all current give the activate listener nothing to
    delete. *)
Lemma orphans_of_current (names : list string) :
  Forall current names → orphans names = [].
Proof.
  unfold orphans, current. induction 1 as [|n l Hn _ IH]; [done|].
  rewrite filter_cons_False; [done|]. intros [? ?]. by destruct Hn.
Qed.

Lemma emit_all {E} (f : E → Event) (l : list E) w :
  foldl (λ w x, emit (f x) w) w l
  = {| caches := caches w; rsvp := rsvp w; trace := trace w ++ (f <$> l) |}.
Proof.
  revert w. induction l as [|x l IH]; intros w; simpl.
  - rewrite app_nil_r. by destruct w.
  - rewrite IH. simpl. by rewrite <- app_assoc.
Qed.

(** Deleting a list of partitions one after the other. *)
Lemma delete_all net w (names : list string) :
  ∃ l, Promise_all (caches_delete <$> names) net w
       = (Resolved l,
          {| caches := filter (λ p, p.1 ∉ names) (caches w);
             rsvp := rsvp w;
             trace := trace w ++ (EvCachesDelete <$> names) |}).
Proof.
  revert w. induction names as [|n names IH]; intros w.
  - exists []. simpl. unfold ret. rewrite app_nil_r.
    rewrite filter_keep_all by (intros; apply not_elem_of_nil).
    by destruct w.
  - rewrite fmap_cons. simpl.
    unfold bind at 1. unfold spawn at 1. unfold caches_delete at 1.
    unfold bind at 1. unfold spawn at 1.
    edestruct IH as [l ->]. simpl.
    eexists. unfold ret. f_equal. f_equal.
    + rewrite list_filter_filter. apply list_filter_iff.
      intros p. rewrite not_elem_of_cons. tauto.
    + by rewrite <- app_assoc.
Qed.

(** The activate listener, run to completion. *)
Lemma activate_run net w :
  activate net w
  = (Resolved tt,
     {| caches := filter (λ p, current p.1) (caches w);
        rsvp := rsvp w;
        trace := trace w
                 ++ EvCachesKeys :: (EvCachesDelete <$> orphans (caches w).*1)
                 ++ [EvClientsClaim] |}).
Proof.
  unfold activate, bind, caches_keys, clients_claim, tell.
  edestruct (delete_all net (emit EvCachesKeys w)) as [l ->].
  unfold emit. simpl. f_equal. f_equal.
  - apply filter_agree. intros [n c] Hin. simpl.
    unfold orphans. rewrite list_elem_of_filter. unfold current.
    assert (n ∈ (caches w).*1) by (apply list_elem_of_fmap; by exists (n, c)).
    destruct (decide (n = STATIC_CACHE)), (decide (n = DYNAMIC_CACHE));
      tauto.
  - by rewrite <- !app_assoc.
Qed.

(** C7. Activating twice in a row: the first run leaves exactly the
    partitions of the storage that are the current static or dynamic one,
    the second run hands nothing to [caches.delete] and leaves the storage
    as the first run left it. *)
Theorem activate_idempotent net1 net2 w :
  let w1 := (onActivate net1 w).2 in
  let w2 := (onActivate net2 w1).2 in
  (∀ p, p ∈ caches w2 ↔ p ∈ caches w ∧ current p.1)
  ∧ caches w2 = caches w1
  ∧ trace w2 = trace w1 ++ [EvCachesKeys; EvClientsClaim]
  ∧ deletions (drop (length (trace w1)) (trace w2)) = [].
Proof.
  unfold onActivate. rewrite !activate_run. simpl.
  assert (Forall current (filter (λ p, current p.1) (caches w)).*1) as Hcur.
  { rewrite Forall_fmap, Forall_forall. by intros p [? _]%list_elem_of_filter. }
  rewrite (orphans_of_current _ Hcur). simpl.
  assert (filter (λ p : string * Cache, current p.1)
            (filter (λ p, current p.1) (caches w))
          = filter (λ p, current p.1) (caches w)) as ->.
  { apply list_filter_filter_l. done. }
  split_and!; [|done|done|].
  - intros p. rewrite list_elem_of_filter. tauto.
  - by rewrite drop_app_length.
Qed.

(** A batch with a request that cannot be fetched is refused. *)
Lemma collect_refused net (requests : list Request) r :
  r ∈ requests → net r = None → ∃ e, collect net requests = Rejected e.
Proof.
  induction requests as [|r0 rest IH]; intros Hin Hnet.
  - by apply not_elem_of_nil in Hin.
  - simpl. apply elem_of_cons in Hin as [<-|Hin].
    + rewrite Hnet. by eexists.
    + destruct (net r0) as [resp|]; [|by eexists].
      destruct (ok resp); [|by eexists].
      destruct (IH Hin Hnet) as [e ->]. by eexists.
Qed.

(** C8. When an asset of the manifest cannot be fetched, the install
    promise rejects and the installation fails: the worker is discarded, so
    its static partition never becomes the one in use.  Nothing was put in
    the static partition (it holds what it held before, nothing when it was
    just created), the other partitions are as they were, and the effects
    of the attempt are the opening of the partition and the fetches:
    [skipWaiting] was not called. *)
Theorem install_fails_as_a_whole net w (files : list string) u :
  u ∈ files →
  net (Request_of origin u) = None →
  let w' := (onInstall_files origin files net w).2 in
  (onInstall_files origin files net w).1 = redundant
  ∧ (∃ e, (install_files origin files net w).1 = Rejected e)
  ∧ (∀ request, stored (caches w') STATIC_CACHE request
                = stored (caches w) STATIC_CACHE request)
  ∧ (∀ name, name ≠ STATIC_CACHE →
             partition (caches w') name = partition (caches w) name)
  ∧ trace w' = trace w ++ EvCachesOpen STATIC_CACHE
                       :: (EvFetch <$> (Request_of origin <$> files))
  ∧ EvSkipWaiting ∉ drop (length (trace w)) (trace w').
Proof.
  intros Hin Hnet.
  destruct (collect_refused net (Request_of origin <$> files)
              (Request_of origin u)) as [e He]; [|done|].
  { apply list_elem_of_fmap. by exists u. }
  pose proof (stored_after_open net w STATIC_CACHE) as Hopen.
  unfold onInstall_files, install_files, bind in *.
  destruct (caches_open STATIC_CACHE net w) as [o w1] eqn:Hw1.
  assert (o = Resolved STATIC_CACHE
          ∧ trace w1 = trace w ++ [EvCachesOpen STATIC_CACHE]
          ∧ ∀ name, name ≠ STATIC_CACHE →
                    partition (caches w1) name = partition (caches w) name)
    as (-> & Ht & Hframe).
  { unfold caches_open in Hw1. simpl in Hw1.
    destruct (partition (caches w) STATIC_CACHE);
      injection Hw1 as <- <-; simpl; split_and!; try done.
    intros name Hne. by apply partition_app_other. }
  unfold cache_addAll. rewrite He, emit_all. simpl.
  split_and!; [done|by eexists|apply Hopen|apply Hframe|..].
  - rewrite Ht, <- app_assoc. done.
  - rewrite Ht, <- app_assoc, drop_app_length.
    intros [[=]|Hev]%elem_of_cons.
    apply list_elem_of_fmap in Hev as (? & [=] & _).
Qed.

(** C9. When the sync event for the RSVP tag fires and there is no pending
    submission, the handler resolves; its only effect is the read of the
    slot, so nothing goes to the network. *)
Theorem syncRSVP_without_pending net w :
  rsvp w = None →
  onSync origin JSON_stringify "rsvp-sync" net w
  = (Resolved tt, emit EvStoreRead w)
  ∧ network_calls (trace (onSync origin JSON_stringify "rsvp-sync" net w).2)
    = network_calls (trace w).
Proof.
  intros Hnone.
  assert (onSync origin JSON_stringify "rsvp-sync" net w
          = (Resolved tt, emit EvStoreRead w)) as ->.
  { unfold onSync. simpl. unfold syncRSVP, bind, getStoredRSVP.
    by rewrite Hnone. }
  split; [done|]. simpl. rewrite network_calls_snoc. apply app_nil_r.
Qed.

End Lifecycle.

(** ** The storage stays purged

    Activation purges the storage, and no handler of the worker creates a
    partition other than the current static and dynamic ones: the storage
    the strategies run on holds these two at most. *)

Section Invariant.

Context (origin : string) {RSVPData : Type}.
Context (JSON_stringify : RSVPData → string).
Implicit Types (w : World RSVPData) (net : Network) (cs : CacheStorage).

Lemma partition_None_fresh cs name :
  partition cs name = None → name ∉ cs.*1.
Proof.
  induction cs as [|[n c] rest IH]; simpl; [intros _; apply not_elem_of_nil|].
  destruct (String.eqb_spec n name) as [->|Hne]; [done|].
  intros Hp. apply not_elem_of_cons. split; [done|by apply IH].
Qed.

Lemma update_partition_names cs name c :
  (update_partition cs name c).*1 = cs.*1.
Proof.
  induction cs as [|[n c0] rest IH]; simpl; [done|].
  destruct (String.eqb n name); csimpl; [done|by rewrite IH].
Qed.

Lemma purged_open cs name :
  current name → purged cs → partition cs name = None →
  purged (cs ++ [(name, ∅)]).
Proof.
  intros Hname [Hnd Hcur] Hp. unfold purged. rewrite fmap_app. simpl. split.
  - apply NoDup_app. split_and!; [done| |apply NoDup_singleton].
    intros x Hx ->%list_elem_of_singleton.
    by apply (partition_None_fresh _ _ Hp).
  - apply Forall_app. split; [done|]. by apply Forall_singleton.
Qed.

Lemma purged_filter cs (P : string * Cache → Prop) `{!∀ p, Decision (P p)} :
  purged cs → purged (filter P cs).
Proof.
  intros [Hnd Hcur]. split.
  - eapply sublist_NoDup; [exact Hnd|]. apply fmap_sublist, sublist_filter.
  - rewrite Forall_fmap, Forall_forall in *.
    intros p [_ Hin]%list_elem_of_filter. by apply Hcur.
Qed.

Local Ltac same_storage :=
  intros net w Hp; cbv beta delta [ret throw settle tell fetch caches_keys
    caches_match cache_match getStoredRSVP clearStoredRSVP]; simpl;
  repeat case_match; simpl; exact Hp.

Lemma keeps_ret {A} (a : A) : keeps_purged (@ret RSVPData A a).
Proof. same_storage. Qed.

Lemma keeps_throw {A} e : keeps_purged (@throw RSVPData A e).
Proof. same_storage. Qed.

Lemma keeps_settle {A} (o : Result A) : keeps_purged (@settle RSVPData A o).
Proof. same_storage. Qed.

Lemma keeps_tell e : keeps_purged (@tell RSVPData e).
Proof. same_storage. Qed.

Lemma keeps_fetch request : keeps_purged (@fetch RSVPData request).
Proof. same_storage. Qed.

Lemma keeps_caches_keys : keeps_purged (@caches_keys RSVPData).
Proof. same_storage. Qed.

Lemma keeps_caches_match request : keeps_purged (@caches_match RSVPData request).
Proof. same_storage. Qed.

Lemma keeps_cache_match cache request :
  keeps_purged (@cache_match RSVPData cache request).
Proof. same_storage. Qed.

Lemma keeps_getStoredRSVP : keeps_purged (@getStoredRSVP RSVPData).
Proof. same_storage. Qed.

Lemma keeps_clearStoredRSVP : keeps_purged (@clearStoredRSVP RSVPData).
Proof. same_storage. Qed.

Lemma keeps_bind {A B} (m : Promise A) (k : A → Promise B) :
  keeps_purged m → (∀ a, keeps_purged (k a)) →
  keeps_purged (@bind RSVPData A B m k).
Proof.
  intros Hm Hk net w Hp. unfold bind. specialize (Hm net w Hp).
  destruct (m net w) as [[a|e] w1]; simpl in *; [by apply Hk|done].
Qed.

Lemma keeps_try_catch {A} (m : Promise A) (h : Error → Promise A) :
  keeps_purged m → (∀ e, keeps_purged (h e)) →
  keeps_purged (@try_catch RSVPData A m h).
Proof.
  intros Hm Hh net w Hp. unfold try_catch. specialize (Hm net w Hp).
  destruct (m net w) as [[a|e] w1]; simpl in *; [done|by apply Hh].
Qed.

Lemma keeps_spawn {A} (m : Promise A) :
  keeps_purged m → keeps_purged (@spawn RSVPData A m).
Proof.
  intros Hm net w Hp. unfold spawn. specialize (Hm net w Hp).
  by destruct (m net w).
Qed.

Lemma keeps_caches_open name :
  current name → keeps_purged (@caches_open RSVPData name).
Proof.
  intros Hname net w Hp. unfold caches_open. simpl.
  destruct (partition (caches w) name) eqn:E; simpl; [done|].
  by apply purged_open.
Qed.

Lemma keeps_caches_delete name : keeps_purged (@caches_delete RSVPData name).
Proof. intros net w Hp. unfold caches_delete. simpl. by apply purged_filter. Qed.

Lemma keeps_cache_put cache request resp :
  keeps_purged (@cache_put RSVPData cache request resp).
Proof.
  intros net w Hp. unfold cache_put.
  destruct (String.eqb _ _); [|done].
  destruct (partition (caches w) cache); simpl; [|done].
  unfold purged. by rewrite update_partition_names.
Qed.

Lemma keeps_cache_addAll cache urls :
  keeps_purged (@cache_addAll origin RSVPData cache urls).
Proof.
  intros net w Hp. unfold cache_addAll. rewrite emit_all.
  destruct (collect _ _) as [l|e]; simpl; [|done].
  destruct (partition (caches w) cache); simpl; [|done].
  assert (∀ w0 : World RSVPData,
    caches (foldl (λ w1 '(u, _), emit (EvCachePut cache u) w1) w0 l)
    = caches w0) as ->.
  { induction l as [|[u r] l IH]; intros w0; simpl; [done|by rewrite IH]. }
  simpl. unfold purged. by rewrite update_partition_names.
Qed.

Lemma keeps_Promise_all {A} (ps : list (Promise A)) :
  Forall keeps_purged ps → keeps_purged (@Promise_all RSVPData A ps).
Proof.
  induction 1 as [|p ps Hp _ IH]; simpl; [apply keeps_ret|].
  apply keeps_bind; [by apply keeps_spawn|]. intros o.
  apply keeps_bind; [by apply keeps_spawn|]. intros os.
  destruct o, os; auto using keeps_ret, keeps_throw.
Qed.

Create HintDb purged.
#[local] Hint Resolve keeps_ret keeps_throw keeps_settle keeps_tell keeps_fetch
  keeps_caches_keys keeps_caches_match keeps_cache_match keeps_getStoredRSVP
  keeps_clearStoredRSVP keeps_spawn keeps_caches_delete keeps_cache_put
  keeps_cache_addAll : purged.

Local Ltac keeps :=
  repeat first
    [ progress eauto with purged
    | apply keeps_bind; [|intros ?]
    | apply keeps_try_catch; [|intros ?]
    | apply keeps_spawn
    | apply keeps_caches_open; [by left + by right]
    | case_match ].

Lemma keeps_networkFirst request : keeps_purged (@networkFirst RSVPData request).
Proof. unfold networkFirst. keeps. Qed.

Lemma keeps_cacheFirst request :
  keeps_purged (@cacheFirst origin RSVPData request).
Proof. unfold cacheFirst. keeps. Qed.

Lemma keeps_staleWhileRevalidate request :
  keeps_purged (@staleWhileRevalidate RSVPData request).
Proof. unfold staleWhileRevalidate. keeps. Qed.

Lemma keeps_install_files files :
  keeps_purged (@install_files origin RSVPData files).
Proof. unfold install_files, skipWaiting. keeps. Qed.

Lemma keeps_syncRSVP : keeps_purged (syncRSVP origin JSON_stringify).
Proof. unfold syncRSVP, console_log. keeps. Qed.

(** Activation purges a storage whose partitions have distinct names. *)
Lemma activate_purges net w :
  NoDup (caches w).*1 → purged (caches (onActivate net w).2).
Proof.
  intros Hnd. unfold onActivate. rewrite activate_run. simpl. split.
  - eapply sublist_NoDup; [exact Hnd|]. apply fmap_sublist, sublist_filter.
  - rewrite Forall_fmap, Forall_forall. by intros p [? _]%list_elem_of_filter.
Qed.

(** Every later event finds and leaves the storage purged. *)
Lemma fetch_keeps_purged net w request :
  purged (caches w) → purged (caches (onFetch origin request net w).2).
Proof.
  intros Hp. unfold onFetch.
  destruct (negb _); [done|].
  destruct (classify request).
  - pose proof (keeps_networkFirst request net w Hp).
    by destruct (networkFirst request net w).
  - pose proof (keeps_cacheFirst request net w Hp).
    by destruct (cacheFirst origin request net w).
  - pose proof (keeps_staleWhileRevalidate request net w Hp).
    by destruct (staleWhileRevalidate request net w).
Qed.

Lemma install_keeps_purged net w files :
  purged (caches w) → purged (caches (onInstall_files origin files net w).2).
Proof.
  intros Hp. unfold onInstall_files.
  pose proof (keeps_install_files files net w Hp).
  by destruct (install_files origin files net w) as [[?|?] ?].
Qed.

Lemma sync_keeps_purged net w tag :
  purged (caches w) →
  purged (caches (onSync origin JSON_stringify tag net w).2).
Proof.
  intros Hp. unfold onSync.
  destruct (String.eqb tag "rsvp-sync"); [by apply keeps_syncRSVP|done].
Qed.

End Invariant.

(** ** The properties at sample inputs *)

(** The world after install and activate satisfies the invariant. *)
Lemma ready_purged : purged (caches ready).
Proof. unfold purged. apply (bool_decide_unpack _). vm_compute. exact I. Qed.

(** Before activation has run, a partition left by an earlier version is
    searched first; once it has run, the current static entry is served. *)
Lemma cacheFirst_around_activation :
  stored (caches upgraded) STATIC_CACHE logo = Some fresh
  ∧ (onFetch site logo net_up upgraded).1 = RespondWith (Resolved (Some kept))
  ∧ (onFetch site logo net_up (onActivate net_up upgraded).2).1
    = RespondWith (Resolved (Some fresh)).
Proof. split_and!; vm_compute; reflexivity. Qed.

(** The static partition can hold an entry for a request classified API: the
    listener looks for [/api/] anywhere in the URL, the host included.  On a
    host named [api] every pre-cached asset is such a request, and with the
    network down network-first answers it from the static partition. *)
Lemma networkFirst_serves_precached_asset :
  classify intranet_home = API
  ∧ stored (caches intranet_ready) DYNAMIC_CACHE intranet_home = None
  ∧ stored (caches intranet_ready) STATIC_CACHE intranet_home
    = Some {| status := 200; body := url intranet_home |}
  ∧ (onFetch intranet intranet_home net_down intranet_ready).1
    = RespondWith (Resolved (Some {| status := 200; body := url intranet_home |})).
Proof. split_and!; vm_compute; reflexivity. Qed.

Lemma non_GET_passes_through_witness :
  method answer ≠ "GET"
  ∧ onFetch site answer net_up ready = (PassThrough, ready).
Proof.
  split; [discriminate|].
  apply (non_GET_passes_through site net_up ready answer). discriminate.
Defined.


(** C2, on the code.  After a successful installation no partition holds
    the placeholder the strategy asks for: the manifest lists
    [/img/hero-placeholder.jpg], the strategy looks up
    [/img/placeholder.jpg].  An image that is not cached and cannot be
    fetched is therefore answered with no response at all. *)
Lemma cacheFirst_placeholder_absent :
  method photo = "GET"
  ∧ classify photo = IMAGE
  ∧ match_all (caches ready) photo = None
  ∧ net_down photo = None
  ∧ (resolve site "/img/placeholder.jpg" ∉ (resolve site <$> STATIC_FILES))
  ∧ (onFetch site photo net_down ready).1 = RespondWith (Resolved None).
Proof.
  split_and!; try (vm_compute; reflexivity).
  apply (bool_decide_unpack _). vm_compute. exact I.
Qed.




Lemma staleWhileRevalidate_serves_cached_witness :
  stored (caches visited) DYNAMIC_CACHE home = Some kept
  ∧ (onFetch site home net_up visited).1 = RespondWith (Resolved (Some kept))
  ∧ (onFetch site home net_down visited).1
    = (onFetch site home net_up visited).1.
Proof.
  split; [vm_compute; reflexivity|].
  destruct (staleWhileRevalidate_serves_cached site net_up visited home kept)
    as (Hrun & Hany); [reflexivity | reflexivity | vm_compute; reflexivity |].
  split; [exact Hrun | exact (Hany net_down)].
Defined.


Lemma install_fails_as_a_whole_witness :
  "/img/logo.png" ∈ STATIC_FILES
  ∧ net_without (url logo) (Request_of site "/img/logo.png") = None
  ∧ (onInstall site (net_without (url logo)) blank).1 = redundant
  ∧ ∀ request,
      stored (caches (onInstall site (net_without (url logo)) blank).2)
        STATIC_CACHE request = None.
Proof.
  assert ("/img/logo.png" ∈ STATIC_FILES) as Hin.
  { apply (bool_decide_unpack _). vm_compute. exact I. }
  split; [exact Hin|]. split; [vm_compute; reflexivity|].
  destruct (install_fails_as_a_whole site (net_without (url logo)) blank
              STATIC_FILES "/img/logo.png" Hin)
    as (Hstate & _ & Hsame & _); [vm_compute; reflexivity|].
  split; [exact Hstate|]. intros request. apply Hsame.
Defined.

Lemma syncRSVP_without_pending_witness :
  rsvp ready = None
  ∧ (onSync site (λ _ : unit, "{}") "rsvp-sync" net_up ready).1 = Resolved tt
  ∧ network_calls
      (trace (onSync site (λ _ : unit, "{}") "rsvp-sync" net_up ready).2)
    = network_calls (trace ready).
Proof.
  split; [reflexivity|].
  destruct (syncRSVP_without_pending site (λ _ : unit, "{}") net_up ready)
    as (Hrun & Hnet); [reflexivity|].
  split; [by rewrite Hrun | exact Hnet].
Defined.

(** ** Complete runs of the strategies *)

Section Runs.

Context (origin : string) {RSVPData : Type}.
Implicit Types (w : World RSVPData) (net : Network) (request : Request).
Implicit Types (cs : CacheStorage).

Lemma network_calls_app t1 t2 :
  network_calls (t1 ++ t2) = network_calls t1 ++ network_calls t2.
Proof. apply omap_app. Qed.

Lemma added_app w w' t : trace w' = trace w ++ t → added w w' = t.
Proof. intros Ht. unfold added. rewrite Ht. apply drop_app_length. Qed.

Lemma added_mk w cs slot t :
  added w {| caches := cs; rsvp := slot; trace := trace w ++ t |} = t.
Proof. by apply added_app. Qed.

Lemma partition_opened cs name : is_Some (partition (opened cs name) name).
Proof.
  unfold opened. destruct (partition cs name) eqn:Hp.
  - rewrite Hp. by eexists.
  - rewrite partition_app_fresh by done. by eexists.
Qed.

Lemma partition_opened_other cs name n :
  n ≠ name → partition (opened cs name) n = partition cs n.
Proof.
  intros Hne. unfold opened. destruct (partition cs name); [done|].
  by apply partition_app_other.
Qed.


Lemma match_all_app cs1 cs2 request :
  match_all (cs1 ++ cs2) request
  = match match_all cs1 request with
    | Some resp => Some resp
    | None => match_all cs2 request
    end.
Proof.
  induction cs1 as [|[n c] rest IH]; simpl; [done|].
  by destruct (entry c request).
Qed.

Lemma match_all_opened cs name request :
  match_all (opened cs name) request = match_all cs request.
Proof.
  unfold opened. destruct (partition cs name); [done|].
  rewrite match_all_app. simpl. destruct (match_all cs request); [done|].
  unfold entry. destruct (String.eqb _ _); [by rewrite lookup_empty|done].
Qed.



Lemma partition_refreshed_other cs request resp name :
  name ≠ DYNAMIC_CACHE →
  partition (refreshed cs request resp) name = partition cs name.
Proof.
  intros Hne. unfold refreshed.
  destruct (partition_opened cs DYNAMIC_CACHE) as [c Hc]. rewrite Hc.
  rewrite partition_update_other by done.
  by apply partition_opened_other.
Qed.



(** The tail of network-first and cache-first after a successful fetch. *)
Lemma open_put_world net w request resp :
  method request = "GET" →
  bind (caches_open DYNAMIC_CACHE)
    (λ cache, bind (spawn (cache_put cache request resp))
                (λ _, ret (Some resp))) net w
  = (Resolved (Some resp),
     {| caches := refreshed (caches w) request resp;
        rsvp := rsvp w;
        trace := trace w ++ [EvCachesOpen DYNAMIC_CACHE;
                             EvCachePut DYNAMIC_CACHE (url request)] |}).
Proof.
  intros Hget.
  unfold bind, caches_open, spawn, cache_put, ret, refreshed, opened.
  simpl. rewrite Hget. simpl.
  destruct (partition (caches w) DYNAMIC_CACHE) as [c|] eqn:Hp; simpl.
  - rewrite Hp. unfold emit, set_caches. simpl. by rewrite <- app_assoc.
  - rewrite partition_app_fresh by done.
    unfold emit, set_caches. simpl. by rewrite <- app_assoc.
Qed.

(** Network-first, run to completion. *)
Lemma networkFirst_run net w request :
  method request = "GET" →
  networkFirst request net w
  = match net request with
    | Some resp =>
        (Resolved (Some resp),
         {| caches := refreshed (caches w) request resp;
            rsvp := rsvp w;
            trace := trace w ++ [EvFetch request;
                                 EvCachesOpen DYNAMIC_CACHE;
                                 EvCachePut DYNAMIC_CACHE (url request)] |})
    | None =>
        (Resolved (Some (default offline (match_all (caches w) request))),
         {| caches := caches w;
            rsvp := rsvp w;
            trace := trace w ++ [EvFetch request;
                                 EvCachesMatch (url request)] |})
    end.
Proof.
  intros Hget. destruct (net request) as [resp|] eqn:Hnet.
  - unfold networkFirst, try_catch. unfold bind at 1. unfold fetch at 1.
    rewrite Hnet. rewrite open_put_world by done. simpl.
    by rewrite <- app_assoc.
  - rewrite networkFirst_offline by done. unfold emit. simpl.
    by rewrite <- app_assoc.
Qed.

(** Cache-first, run to completion. *)
Lemma cacheFirst_run net w request :
  method request = "GET" →
  cacheFirst origin request net w
  = match match_all (caches w) request, net request with
    | Some resp, _ =>
        (Resolved (Some resp),
         {| caches := caches w; rsvp := rsvp w;
            trace := trace w ++ [EvCachesMatch (url request)] |})
    | None, Some resp =>
        (Resolved (Some resp),
         {| caches := refreshed (caches w) request resp;
            rsvp := rsvp w;
            trace := trace w ++ [EvCachesMatch (url request);
                                 EvFetch request;
                                 EvCachesOpen DYNAMIC_CACHE;
                                 EvCachePut DYNAMIC_CACHE (url request)] |})
    | None, None =>
        if String.eqb (destination request) "image" then
          (Resolved (match_all (caches w)
                       (Request_of origin "/img/placeholder.jpg")),
           {| caches := caches w; rsvp := rsvp w;
              trace := trace w ++ [EvCachesMatch (url request);
                                   EvFetch request;
                                   EvCachesMatch
                                     (resolve origin "/img/placeholder.jpg")] |})
        else
          (Rejected NetworkFailure,
           {| caches := caches w; rsvp := rsvp w;
              trace := trace w ++ [EvCachesMatch (url request);
                                   EvFetch request] |})
    end.
Proof.
  intros Hget. unfold cacheFirst. unfold bind at 1. unfold caches_match at 1.
  destruct (match_all (caches w) request) as [hit|] eqn:Hm; [done|].
  unfold try_catch. unfold bind at 1. unfold fetch at 1.
  destruct (net request) as [resp|] eqn:Hnet.
  - rewrite open_put_world by done. simpl. by rewrite <- !app_assoc.
  - destruct (String.eqb (destination request) "image");
      unfold caches_match, throw, emit; simpl; by rewrite <- !app_assoc.
Qed.

(** Stale-while-revalidate, run to completion. *)
Lemma staleWhileRevalidate_run net w request :
  method request = "GET" →
  staleWhileRevalidate request net w
  = (match stored (caches w) DYNAMIC_CACHE request with
     | Some e => Resolved (Some e)
     | None => fetched net request
     end,
     {| caches := match net request with
                  | Some resp => refreshed (caches w) request resp
                  | None => opened (caches w) DYNAMIC_CACHE
                  end;
        rsvp := rsvp w;
        trace := trace w
                 ++ [EvCachesOpen DYNAMIC_CACHE;
                     EvCacheMatch DYNAMIC_CACHE (url request);
                     EvFetch request]
                 ++ match net request with
                    | Some _ => [EvCachePut DYNAMIC_CACHE (url request)]
                    | None => []
                    end |}).
Proof.
  intros Hget.
  pose proof (staleWhileRevalidate_answer net w request) as Hanswer.
  assert ((staleWhileRevalidate request net w).2
          = {| caches := match net request with
                         | Some resp => refreshed (caches w) request resp
                         | None => opened (caches w) DYNAMIC_CACHE
                         end;
               rsvp := rsvp w;
               trace := trace w
                        ++ [EvCachesOpen DYNAMIC_CACHE;
                            EvCacheMatch DYNAMIC_CACHE (url request);
                            EvFetch request]
                        ++ match net request with
                           | Some _ => [EvCachePut DYNAMIC_CACHE (url request)]
                           | None => []
                           end |}) as Hworld.
  { unfold staleWhileRevalidate, bind, caches_open, cache_match, spawn, fetch,
      cache_put, settle, ret, refreshed, opened.
    simpl. rewrite Hget. simpl.
    destruct (partition (caches w) DYNAMIC_CACHE) as [c|] eqn:Hp; simpl.
    - destruct (net request); simpl; rewrite ?Hp; simpl;
        repeat case_match; unfold emit, set_caches; simpl;
        by rewrite <- !app_assoc.
    - destruct (net request); simpl; rewrite ?partition_app_fresh by done;
        simpl; repeat case_match; unfold emit, set_caches; simpl;
        by rewrite <- !app_assoc. }
  destruct (staleWhileRevalidate request net w) as [o w']. simpl in *.
  by subst.
Qed.

End Runs.

(** ** Requests over time *)

Section Replay.

Context (origin : string) {RSVPData : Type}.
Implicit Types (w : World RSVPData) (net : Network) (request : Request).

(** The fetch listener on a GET request, by category. *)
Lemma onFetch_GET net w request :
  method request = "GET" →
  onFetch origin request net w
  = match classify request with
    | API => (RespondWith (networkFirst request net w).1,
              (networkFirst request net w).2)
    | IMAGE => (RespondWith (cacheFirst origin request net w).1,
                (cacheFirst origin request net w).2)
    | OTHER => (RespondWith (staleWhileRevalidate request net w).1,
                (staleWhileRevalidate request net w).2)
    end.
Proof.
  intros Hget. unfold onFetch. rewrite Hget. simpl.
  destruct (classify request);
    match goal with |- context [let '(_, _) := ?m in _] => by destruct m end.
Qed.

Lemma non_GET_run net w request :
  method request ≠ "GET" → onFetch origin request net w = (PassThrough, w).
Proof. intros Hm. unfold onFetch. by apply String.eqb_neq in Hm as ->. Qed.

Lemma classify_IMAGE_destination request :
  classify request = IMAGE → String.eqb (destination request) "image" = true.
Proof.
  unfold classify. destruct (includes _ _); [done|].
  by destruct (String.eqb _ _).
Qed.






(** X6. When the refresh fails, the cached entry is still the answer and
    the cache storage is what it was: a failed fetch evicts nothing. *)
Theorem staleWhileRevalidate_failed_refresh_keeps_entry net w request old :
  method request = "GET" →
  classify request = OTHER →
  stored (caches w) DYNAMIC_CACHE request = Some old →
  net request = None →
  (onFetch origin request net w).1 = RespondWith (Resolved (Some old))
  ∧ caches (onFetch origin request net w).2 = caches w.
Proof.
  intros Hget Hclass Hold Hnet.
  rewrite onFetch_GET, Hclass, staleWhileRevalidate_run by done.
  rewrite Hold, Hnet. simpl. split; [done|].
  unfold opened. unfold stored in Hold.
  by destruct (partition (caches w) DYNAMIC_CACHE).
Qed.




End Replay.

(** ** Installation, the event loop and deferred submission over time *)

Section Deployment.

Context (origin : string) {RSVPData : Type}.
Context (JSON_stringify : RSVPData → string).
Implicit Types (w : World RSVPData) (net : Network) (request : Request).
Implicit Types (cs : CacheStorage) (c : Cache).





Lemma caches_foldl_emit {E} (f : E → Event) (l : list E) w :
  caches (foldl (λ w x, emit (f x) w) w l) = caches w.
Proof. by rewrite emit_all. Qed.









Lemma partition_filter_current cs name :
  current name →
  partition (filter (λ p, current p.1) cs) name = partition cs name.
Proof.
  intros Hname. induction cs as [|[n c] rest IH]; [done|].
  rewrite filter_cons. simpl. destruct (decide (current n)) as [Hn|Hn]; simpl.
  - by rewrite IH.
  - rewrite IH. destruct (String.eqb_spec n name) as [->|]; [done|done].
Qed.

Lemma dispatch_keeps_purged ev net w :
  purged (caches w) →
  purged (caches (dispatch origin JSON_stringify ev net w)).
Proof.
  intros Hp. destruct ev; simpl.
  - by apply install_keeps_purged.
  - apply activate_purges, Hp.
  - by apply fetch_keeps_purged.
  - by apply sync_keeps_purged.
Qed.

(** X11. Once the worker has activated on a storage with distinct partition
    names, whatever events follow (installs, activations, intercepted
    requests, syncs, on whatever network), the storage holds the current
    static and dynamic partitions at most, each once. *)
Theorem storage_stays_purged net w (evs : list (WorkerEvent * Network)) :
  NoDup (caches w).*1 →
  purged (caches (run_events origin JSON_stringify evs (onActivate net w).2)).
Proof.
  intros Hnd. pose proof (activate_purges net w Hnd) as Hp.
  revert Hp. generalize (onActivate net w).2. unfold run_events.
  induction evs as [|[ev n] evs IH]; intros w0 Hp; [done|].
  simpl. apply IH. by apply dispatch_keeps_purged.
Qed.


(** The sync listener on a pending record, run to completion. *)
Lemma syncRSVP_run net w data :
  rsvp w = Some data →
  onSync origin JSON_stringify "rsvp-sync" net w
  = match net (delivery origin (JSON_stringify data)) with
    | Some _ =>
        (Resolved tt,
         {| caches := caches w; rsvp := None;
            trace := trace w
                     ++ [EvStoreRead;
                         EvFetch (delivery origin (JSON_stringify data));
                         EvStoreClear] |})
    | None =>
        (Resolved tt,
         {| caches := caches w; rsvp := Some data;
            trace := trace w
                     ++ [EvStoreRead;
                         EvFetch (delivery origin (JSON_stringify data));
                         EvConsoleLog "RSVP sync failed:"] |})
    end.
Proof.
  intros Hpending. unfold onSync. simpl.
  unfold syncRSVP, bind, getStoredRSVP, try_catch, fetch, clearStoredRSVP,
    console_log, tell, delivery.
  rewrite Hpending. simpl.
  destruct (net _); unfold emit, set_rsvp; simpl; rewrite ?Hpending;
    by rewrite <- !app_assoc.
Qed.

Lemma sync_idle_run net w :
  rsvp w = None →
  onSync origin JSON_stringify "rsvp-sync" net w
  = (Resolved tt,
     {| caches := caches w; rsvp := None;
        trace := trace w ++ [EvStoreRead] |}).
Proof.
  intros Hnone. unfold onSync. simpl.
  unfold syncRSVP, bind, getStoredRSVP, ret, emit. by rewrite Hnone.
Qed.

(** X13. With a pending RSVP, a sync whose fetch resolves (with whatever
    status) sends the record once, as a POST of its JSON text to /api/rsvp,
    and clears the pending slot; the cache storage is not touched. *)
Theorem syncRSVP_delivers_and_clears net w data resp :
  rsvp w = Some data →
  net (delivery origin (JSON_stringify data)) = Some resp →
  let w' := (onSync origin JSON_stringify "rsvp-sync" net w).2 in
  (onSync origin JSON_stringify "rsvp-sync" net w).1 = Resolved tt
  ∧ rsvp w' = None
  ∧ network_calls (added w w') = [delivery origin (JSON_stringify data)]
  ∧ caches w' = caches w.
Proof.
  intros Hpending Hnet. rewrite syncRSVP_run with (data := data) by done.
  rewrite Hnet. simpl. by rewrite added_mk.
Qed.

(** X14. With a pending RSVP, a sync whose fetch fails still resolves: the
    failure is logged, the record stays pending, one request went out and
    the cache storage is not touched. *)
Theorem syncRSVP_failure_keeps_pending net w data :
  rsvp w = Some data →
  net (delivery origin (JSON_stringify data)) = None →
  let w' := (onSync origin JSON_stringify "rsvp-sync" net w).2 in
  (onSync origin JSON_stringify "rsvp-sync" net w).1 = Resolved tt
  ∧ rsvp w' = Some data
  ∧ network_calls (added w w') = [delivery origin (JSON_stringify data)]
  ∧ last (trace w') = Some (EvConsoleLog "RSVP sync failed:")
  ∧ caches w' = caches w.
Proof.
  intros Hpending Hnet. rewrite syncRSVP_run with (data := data) by done.
  rewrite Hnet. simpl. rewrite added_mk. split_and!; try done.
  by rewrite last_app.
Qed.

(** X15. Retrying: after a sync that failed, the next sync on a working
    network delivers the same record and clears the slot, and a further
    sync sends nothing. *)
Theorem sync_retry_delivers net1 net2 net3 w data resp :
  rsvp w = Some data →
  net1 (delivery origin (JSON_stringify data)) = None →
  net2 (delivery origin (JSON_stringify data)) = Some resp →
  let w1 := (onSync origin JSON_stringify "rsvp-sync" net1 w).2 in
  let w2 := (onSync origin JSON_stringify "rsvp-sync" net2 w1).2 in
  let w3 := (onSync origin JSON_stringify "rsvp-sync" net3 w2).2 in
  network_calls (added w1 w2) = [delivery origin (JSON_stringify data)]
  ∧ rsvp w2 = None
  ∧ network_calls (added w2 w3) = []
  ∧ rsvp w3 = None.
Proof.
  intros Hpending Hdown Hup.
  rewrite (syncRSVP_run net1 w data) by done. rewrite Hdown. cbn [snd].
  rewrite (syncRSVP_run net2 _ data) by done. rewrite Hup. cbn [snd].
  rewrite (sync_idle_run net3) by done. cbn [snd].
  by rewrite !added_mk.
Qed.

End Deployment.

(** ** Classification and notifications *)

Section Classification.

Lemma prefix_occurs (needle hay : string) :
  String.prefix needle hay = true ↔ ∃ rest, hay = needle +:+ rest.
Proof.
  revert hay. induction needle as [|a needle IH]; intros hay.
  - split; [intros _; by exists hay|by destruct hay].
  - destruct hay as [|b hay]; simpl.
    + split; [done|]. intros [rest Hrest].
      change ("" = String a (needle +:+ rest)) in Hrest. discriminate.
    + destruct (Ascii.ascii_dec a b) as [->|Hne].
      * rewrite IH. split; intros [rest Hrest]; exists rest.
        -- change (String b hay = String b (needle +:+ rest)). congruence.
        -- change (String b hay = String b (needle +:+ rest)) in Hrest.
           congruence.
      * split; [done|]. intros [rest Hrest].
        change (String b hay = String a (needle +:+ rest)) in Hrest.
        congruence.
Qed.

Lemma includes_unfold (needle hay : string) :
  includes needle hay
  = String.prefix needle hay
    || match hay with
       | EmptyString => false
       | String _ rest => includes needle rest
       end.
Proof. by destruct hay. Qed.

(** [includes] finds exactly the occurrences of the needle. *)
Lemma includes_occurs (needle hay : string) :
  includes needle hay = true ↔ occurs_in needle hay.
Proof.
  unfold occurs_in. split.
  - induction hay as [|b hay IH]; rewrite includes_unfold.
    + rewrite orb_false_r. intros [rest Hrest]%prefix_occurs.
      by exists "", rest.
    + intros [[rest Hrest]%prefix_occurs|Hin]%orb_true_iff.
      * by exists "", rest.
      * destruct (IH Hin) as (before & after & ->).
        by exists (String b before), after.
  - intros (before & after & ->).
    induction before as [|b before IH].
    + change (includes needle (needle +:+ after) = true).
      rewrite includes_unfold. apply orb_true_iff. left.
      apply prefix_occurs. by exists after.
    + change (includes needle (String b (before +:+ needle +:+ after))
              = true).
      rewrite includes_unfold. apply orb_true_iff. by right.
Qed.

(** X16. How the fetch listener sorts a request: network-first exactly when
    [/api/] occurs somewhere in the URL (this test comes first, so it wins
    over the destination), cache-first exactly when it does not and the
    destination is an image, stale-while-revalidate otherwise. *)
Theorem classify_by_url_then_destination request :
  (classify request = API ↔ occurs_in "/api/" (url request))
  ∧ (classify request = IMAGE
     ↔ ¬ occurs_in "/api/" (url request) ∧ destination request = "image")
  ∧ (classify request = OTHER
     ↔ ¬ occurs_in "/api/" (url request) ∧ destination request ≠ "image").
Proof.
  unfold classify. rewrite <- includes_occurs.
  destruct (includes "/api/" (url request)).
  - split_and!; split; try done; by intros [? _].
  - destruct (String.eqb_spec (destination request) "image") as [Hd|Hd].
    + split_and!; split; try done. by intros [_ ?].
    + split_and!; split; try done. by intros [_ ?].
Qed.

(** X17. A click on a notification always closes it first, and opens a
    window, at [/], exactly when the action clicked is [view]: neither
    [dismiss] nor a click on the notification itself opens anything. *)
Theorem notificationclick_opens_only_on_view (clicked : string) :
  head (Notification.onNotificationClick clicked) = Some Notification.Close
  ∧ (∀ target,
       Notification.OpenWindow target
       ∈ Notification.onNotificationClick clicked
       ↔ clicked = "view" ∧ target = "/").
Proof.
  unfold Notification.onNotificationClick. split; [done|]. intros target.
  destruct (String.eqb_spec clicked "view") as [->|Hne].
  - rewrite elem_of_cons, list_elem_of_singleton. split.
    + intros [[=]|[= ->]]. done.
    + intros [_ ->]. by right.
  - rewrite list_elem_of_singleton. split; [by intros [=]|by intros [? _]].
Qed.

End Classification.

(** ** What the handlers never do *)

Section Never.

Context (origin : string) {RSVPData : Type}.
Context (JSON_stringify : RSVPData → string).
Implicit Types (w : World RSVPData) (net : Network) (request : Request).
Implicit Types (cs : CacheStorage).






Lemma fetch_keeps_static net w request :
  partition (caches (onFetch origin request net w).2) STATIC_CACHE
  = partition (caches w) STATIC_CACHE.
Proof.
  destruct (String.eqb_spec (method request) "GET") as [Hget|Hne].
  2: { by rewrite non_GET_run. }
  rewrite onFetch_GET by done.
  destruct (classify request) eqn:Hclass.
  - rewrite networkFirst_run by done.
    destruct (net request); simpl; [|done].
    by apply partition_refreshed_other.
  - rewrite cacheFirst_run by done.
    rewrite (classify_IMAGE_destination _ Hclass).
    destruct (match_all (caches w) request), (net request); simpl;
      try done.
    by apply partition_refreshed_other.
  - rewrite staleWhileRevalidate_run by done.
    destruct (net request); simpl.
    + by apply partition_refreshed_other.
    + by apply partition_opened_other.
Qed.

Lemma sync_keeps_caches net w tag :
  caches (onSync origin JSON_stringify tag net w).2 = caches w.
Proof.
  destruct (decide (tag = "rsvp-sync")) as [->|Hne].
  - destruct (rsvp w) as [data|] eqn:Hslot.
    + rewrite (syncRSVP_run origin JSON_stringify net w data) by done.
      by destruct (net _).
    + by rewrite sync_idle_run.
  - unfold onSync. apply String.eqb_neq in Hne. by rewrite Hne.
Qed.

(** X19. The static partition changes at installation only: over any
    sequence of intercepted requests, syncs and activations, it holds what
    it held at the start. *)
Theorem static_changes_only_on_install w (evs : list (WorkerEvent * Network)) :
  Forall (λ e, e.1 ≠ InstallEvent) evs →
  partition (caches (run_events origin JSON_stringify evs w)) STATIC_CACHE
  = partition (caches w) STATIC_CACHE.
Proof.
  unfold run_events. intros Hevs. revert w.
  induction Hevs as [|[ev net] evs Hev _ IH]; intros w; [done|].
  simpl. rewrite IH. destruct ev; simpl in *.
  - done.
  - unfold onActivate. rewrite activate_run. simpl.
    apply partition_filter_current. by left.
  - apply fetch_keeps_static.
  - by rewrite sync_keeps_caches.
Qed.

(** X20. An intercepted API request always gets a response: the fresh one,
    a stored one or the synthetic one; network-first never rejects and never
    answers with nothing. *)
Theorem networkFirst_always_answers net w request :
  method request = "GET" →
  classify request = API →
  ∃ resp, (onFetch origin request net w).1
          = RespondWith (Resolved (Some resp)).
Proof.
  intros Hget Hclass.
  rewrite onFetch_GET, Hclass, networkFirst_run by done.
  destruct (net request); by eexists.
Qed.

End Never.

(** ** The further properties at sample inputs *)






Lemma staleWhileRevalidate_failed_refresh_keeps_entry_witness :
  stored (caches visited) DYNAMIC_CACHE home = Some kept
  ∧ net_down home = None
  ∧ (onFetch site home net_down visited).1
    = RespondWith (Resolved (Some kept))
  ∧ caches (onFetch site home net_down visited).2 = caches visited.
Proof.
  split; [vm_compute; reflexivity|]. split; [reflexivity|].
  apply (staleWhileRevalidate_failed_refresh_keeps_entry site net_down visited
           home kept);
    [reflexivity | reflexivity | vm_compute; reflexivity | reflexivity].
Defined.



Lemma storage_stays_purged_witness :
  NoDup (caches upgraded).*1
  ∧ purged (caches (run_events site to_json busy_day
                      (onActivate net_up upgraded).2)).
Proof.
  assert (NoDup (caches upgraded).*1) as Hnd.
  { apply (bool_decide_unpack _). vm_compute. exact I. }
  split; [exact Hnd|].
  apply (storage_stays_purged site to_json net_up upgraded busy_day Hnd).
Defined.


Lemma syncRSVP_delivers_and_clears_witness :
  rsvp pending = Some tt
  ∧ rsvp (onSync site to_json "rsvp-sync" net_up pending).2 = None
  ∧ network_calls
      (added pending (onSync site to_json "rsvp-sync" net_up pending).2)
    = [post "https://example.com/api/rsvp" "{}"].
Proof.
  split; [reflexivity|].
  destruct (syncRSVP_delivers_and_clears site to_json net_up pending tt
              {| status := 200; body := "https://example.com/api/rsvp" |})
    as (_ & Hslot & Hnet & _); [reflexivity | reflexivity |].
  split; [exact Hslot | exact Hnet].
Defined.

Lemma syncRSVP_failure_keeps_pending_witness :
  rsvp pending = Some tt
  ∧ (onSync site to_json "rsvp-sync" net_down pending).1 = Resolved tt
  ∧ rsvp (onSync site to_json "rsvp-sync" net_down pending).2 = Some tt.
Proof.
  split; [reflexivity|].
  destruct (syncRSVP_failure_keeps_pending site to_json net_down pending tt)
    as (Hrun & Hslot & _); [reflexivity | reflexivity |].
  split; [exact Hrun | exact Hslot].
Defined.

Lemma sync_retry_delivers_witness :
  rsvp pending = Some tt
  ∧ rsvp (onSync site to_json "rsvp-sync" net_up
            (onSync site to_json "rsvp-sync" net_down pending).2).2 = None.
Proof.
  split; [reflexivity|].
  destruct (sync_retry_delivers site to_json net_down net_up net_up pending tt
              {| status := 200; body := "https://example.com/api/rsvp" |})
    as (_ & Hslot & _); [reflexivity | reflexivity | reflexivity |].
  exact Hslot.
Defined.


Lemma static_changes_only_on_install_witness :
  Forall (λ e : WorkerEvent * Network, e.1 ≠ InstallEvent) quiet_day
  ∧ partition (caches (run_events site to_json quiet_day ready)) STATIC_CACHE
    = partition (caches ready) STATIC_CACHE.
Proof.
  assert (Forall (λ e : WorkerEvent * Network, e.1 ≠ InstallEvent) quiet_day)
    as Hquiet.
  { unfold quiet_day. repeat constructor; discriminate. }
  split; [exact Hquiet|].
  apply (static_changes_only_on_install site to_json ready quiet_day Hquiet).
Defined.

Lemma networkFirst_always_answers_witness :
  classify guests = API
  ∧ ∃ resp, (onFetch site guests net_down ready).1
            = RespondWith (Resolved (Some resp)).
Proof.
  split; [reflexivity|].
  apply (networkFirst_always_answers site net_down ready guests);
    reflexivity.
Defined.
